(** * The dynamic query builder of package [gh] (query_builder.go)

    A shallow embedding of [QueryBuilder] and of its methods
    [NewQueryBuilder], [Where], [GroupBy], [OrderBy] and [Build], with the
    properties of the builder that the package documentation relies on.
    After the builder come the parser of connection strings [ParseDSN]
    (connect.go), the filters of the wrapper of [*gorm.DB] and
    [GetPaginated] (gorm.go).

    The builder is a heap object that every method mutates in place and
    hands back; here a method is a function from the builder before the
    call to the result of the call together with the builder after it.
    A Go run-time panic is an explicit outcome, so that "this call returns"
    is a statement that can be proved. Module [Ptr] has the same methods
    over a receiver that may be [nil]. *)

From Stdlib Require Import String Ascii List Bool Arith ZArith Lia.
Import ListNotations.
Open Scope list_scope.
Open Scope string_scope.

(** ** Values of type [interface{}] *)

(** The dynamic types that matter for the comparison [value != ""]:
    the predeclared [string], [int] and [bool], a defined type whose
    underlying type is [string] (such as [type Email string]), and the
    slice type [[]string], which Go cannot compare. *)
Inductive GoType : Type :=
| TString
| TInt
| TBool
| TNamedString (tname : string)
| TStringSlice.

(** An [interface{}] value: [nil], or a dynamic type with its value. *)
Inductive iface : Type :=
| INil
| IString (s : string)
| IInt (n : Z)
| IBool (b : bool)
| INamedString (tname : string) (s : string)
| IStringSlice (elems : list string).

Definition dynamic_type (x : iface) : option GoType :=
  match x with
  | INil => None
  | IString _ => Some TString
  | IInt _ => Some TInt
  | IBool _ => Some TBool
  | INamedString tname _ => Some (TNamedString tname)
  | IStringSlice _ => Some TStringSlice
  end.

Definition GoType_eqb (t u : GoType) : bool :=
  match t, u with
  | TString, TString => true
  | TInt, TInt => true
  | TBool, TBool => true
  | TNamedString a, TNamedString b => String.eqb a b
  | TStringSlice, TStringSlice => true
  | _, _ => false
  end.

Definition type_word_eqb (t u : option GoType) : bool :=
  match t, u with
  | None, None => true
  | Some a, Some b => GoType_eqb a b
  | _, _ => false
  end.

Definition comparable (t : GoType) : bool :=
  match t with
  | TStringSlice => false
  | _ => true
  end.

(** Equality of the data words of two interface values of one dynamic
    type. *)
Definition data_eqb (x y : iface) : bool :=
  match x, y with
  | IString a, IString b => String.eqb a b
  | IInt a, IInt b => Z.eqb a b
  | IBool a, IBool b => Bool.eqb a b
  | INamedString _ a, INamedString _ b => String.eqb a b
  | _, _ => false
  end.

(** ** Outcomes and methods *)

Inductive outcome (A : Type) : Type :=
| Returns (a : A)
| Panics (msg : string).

Arguments Returns {A} a.
Arguments Panics {A} msg.

(** The name of a type, as the run time prints it. *)
Definition GoType_string (t : GoType) : string :=
  match t with
  | TString => "string"
  | TInt => "int"
  | TBool => "bool"
  | TNamedString tname => tname
  | TStringSlice => "[]string"
  end.

(** Go's [x == y] on interface values: the type words are compared first;
    with identical dynamic types the data words are compared, and the
    run time panics when that type is not comparable. *)
Definition iface_eq (x y : iface) : outcome bool :=
  if type_word_eqb (dynamic_type x) (dynamic_type y) then
    match dynamic_type x with
    | None => Returns true
    | Some t =>
        if comparable t then Returns (data_eqb x y)
        else Panics ("runtime error: comparing uncomparable type "
                     ++ GoType_string t)
    end
  else Returns false.

Definition iface_neq (x y : iface) : outcome bool :=
  match iface_eq x y with
  | Returns b => Returns (negb b)
  | Panics msg => Panics msg
  end.

(** [type QueryBuilder struct { query string; args []interface{} }] *)
Record QueryBuilder : Type := mkQueryBuilder {
  query : string;
  args : list iface
}.

(** A method with receiver [qb *QueryBuilder] and a result of type [A]. *)
Definition method (A : Type) : Type := QueryBuilder -> outcome (A * QueryBuilder).

Definition ret {A : Type} (a : A) : method A :=
  fun qb => Returns (a, qb).

Definition bind {A B : Type} (m : method A) (k : A -> method B) : method B :=
  fun qb =>
    match m qb with
    | Returns (a, qb') => k a qb'
    | Panics msg => Panics msg
    end.

Definition eval {A : Type} (o : outcome A) : method A :=
  fun qb =>
    match o with
    | Returns a => Returns (a, qb)
    | Panics msg => Panics msg
    end.

Definition get_query : method string := fun qb => Returns (query qb, qb).
Definition get_args : method (list iface) := fun qb => Returns (args qb, qb).
Definition set_query (q : string) : method unit :=
  fun qb => Returns (tt, mkQueryBuilder q (args qb)).
Definition set_args (a : list iface) : method unit :=
  fun qb => Returns (tt, mkQueryBuilder (query qb) a).

Declare Scope method_scope.
Delimit Scope method_scope with method.
Notation "x <- m ;; k" := (bind m (fun x => k))
  (at level 61, m at next level, right associativity) : method_scope.
Notation "m ;; k" := (bind m (fun _ => k))
  (at level 61, right associativity) : method_scope.
Open Scope method_scope.

(** ** strings.Join *)

(** [strings.Join(elems, sep)]: the empty string for no element, else the
    first element followed by [sep] and the next element, for each of the
    remaining elements in turn. *)
Definition Join (elems : list string) (sep : string) : string :=
  match elems with
  | [] => ""
  | first :: rest => fold_left (fun b s => (b ++ sep) ++ s) rest first
  end.

(** ** The builder *)

Definition NewQueryBuilder (baseQuery : string) : QueryBuilder :=
  {| query := baseQuery; args := [] |}.

Definition Where (condition : string) (value : iface) : method unit :=
  ne <- eval (iface_neq value (IString "")) ;;
  if ne then
    a <- get_args ;;
    q <- get_query ;;
    (if (0 <? List.length a)%nat
     then set_query (q ++ (" AND " ++ condition))
     else set_query (q ++ (" WHERE " ++ condition))) ;;
    a <- get_args ;;
    set_args (a ++ [value])%list
  else ret tt.

Definition GroupBy (columns : list string) : method unit :=
  if (0 <? List.length columns)%nat then
    q <- get_query ;;
    set_query (q ++ (" GROUP BY " ++ Join columns ", "))
  else ret tt.

Definition OrderBy (columns : list string) : method unit :=
  if (0 <? List.length columns)%nat then
    q <- get_query ;;
    set_query (q ++ (" ORDER BY " ++ Join columns ", "))
  else ret tt.

Definition Build : method (string * list iface) :=
  q <- get_query ;;
  a <- get_args ;;
  ret (q, a).

(** ** Call sequences *)

(** One chained call on a builder, as data. *)
Inductive call : Type :=
| CallWhere (condition : string) (value : iface)
| CallGroupBy (columns : list string)
| CallOrderBy (columns : list string).

Definition exec (c : call) : method unit :=
  match c with
  | CallWhere condition value => Where condition value
  | CallGroupBy columns => GroupBy columns
  | CallOrderBy columns => OrderBy columns
  end.

(** [qb.c1(...).c2(...)...]: the calls of a chain, first to last. *)
Fixpoint chain (cs : list call) : method unit :=
  match cs with
  | [] => ret tt
  | c :: rest => exec c ;; chain rest
  end.

(** A chain made of [Where] calls only, each given as (condition, value). *)
Definition wheres (ws : list (string * iface)) : method unit :=
  chain (map (fun w => CallWhere (fst w) (snd w)) ws).

(** ** The receiver as a pointer *)

(** The methods have the receiver [qb *QueryBuilder], and a pointer can
    be [nil]. Here a receiver is [Some] builder, or [None] for [nil]; a
    read or a write of a field through [nil] panics. The methods are
    written out again over such receivers, statement by statement. *)
Module Ptr.

Definition receiver : Type := option QueryBuilder.

Definition nil_dereference : string :=
  "runtime error: invalid memory address or nil pointer dereference".

Definition method (A : Type) : Type := receiver -> outcome (A * receiver).

Definition ret {A : Type} (a : A) : method A :=
  fun qb => Returns (a, qb).

Definition bind {A B : Type} (m : method A) (k : A -> method B) : method B :=
  fun qb =>
    match m qb with
    | Returns (a, qb') => k a qb'
    | Panics msg => Panics msg
    end.

Definition eval {A : Type} (o : outcome A) : method A :=
  fun qb =>
    match o with
    | Returns a => Returns (a, qb)
    | Panics msg => Panics msg
    end.

(** [qb.query] and [qb.args], read. *)
Definition load {A : Type} (field : QueryBuilder -> A) : method A :=
  fun qb =>
    match qb with
    | Some b => Returns (field b, qb)
    | None => Panics nil_dereference
    end.

(** [qb.query = q] and [qb.args = a]. *)
Definition store_query (q : string) : method unit :=
  fun qb =>
    match qb with
    | Some b => Returns (tt, Some (mkQueryBuilder q (args b)))
    | None => Panics nil_dereference
    end.

Definition store_args (a : list iface) : method unit :=
  fun qb =>
    match qb with
    | Some b => Returns (tt, Some (mkQueryBuilder (query b) a))
    | None => Panics nil_dereference
    end.

Declare Scope ptr_scope.
Delimit Scope ptr_scope with ptr.
Notation "x <- m ;; k" := (bind m (fun x => k))
  (at level 61, m at next level, right associativity) : ptr_scope.
Notation "m ;; k" := (bind m (fun _ => k))
  (at level 61, right associativity) : ptr_scope.

Definition NewQueryBuilder (baseQuery : string) : receiver :=
  Some {| query := baseQuery; args := [] |}.

Definition Where (condition : string) (value : iface) : method unit :=
  (ne <- eval (iface_neq value (IString "")) ;;
   if ne then
     a <- load args ;;
     (if (0 <? List.length a)%nat
      then q <- load query ;; store_query (q ++ (" AND " ++ condition))
      else q <- load query ;; store_query (q ++ (" WHERE " ++ condition))) ;;
     a <- load args ;;
     store_args (a ++ [value])%list
   else ret tt)%ptr.

Definition GroupBy (columns : list string) : method unit :=
  (if (0 <? List.length columns)%nat then
     q <- load query ;;
     store_query (q ++ (" GROUP BY " ++ Join columns ", "))
   else ret tt)%ptr.

Definition OrderBy (columns : list string) : method unit :=
  (if (0 <? List.length columns)%nat then
     q <- load query ;;
     store_query (q ++ (" ORDER BY " ++ Join columns ", "))
   else ret tt)%ptr.

Definition Build : method (string * list iface) :=
  (q <- load query ;;
   a <- load args ;;
   ret (q, a))%ptr.

Definition exec (c : call) : method unit :=
  match c with
  | CallWhere condition value => Where condition value
  | CallGroupBy columns => GroupBy columns
  | CallOrderBy columns => OrderBy columns
  end.

Fixpoint chain (cs : list call) : method unit :=
  match cs with
  | [] => ret tt
  | c :: rest => (exec c ;; chain rest)%ptr
  end.

(** The outcome of a method on a builder, as the outcome of the method
    on the pointer to that builder. *)
Definition at_pointer {A : Type} (o : outcome (A * QueryBuilder))
  : outcome (A * receiver) :=
  match o with
  | Returns (a, b) => Returns (a, Some b)
  | Panics msg => Panics msg
  end.

End Ptr.

(** ** Notions used in the statements *)

(** The value is the string [""] of dynamic type [string]. *)
Definition is_empty_string (v : iface) : bool :=
  match v with
  | IString s => String.eqb s ""
  | _ => false
  end.

(** The [Where] calls of a sequence whose value is not the empty string. *)
Definition accepted (ws : list (string * iface)) : list (string * iface) :=
  filter (fun w => negb (is_empty_string (snd w))) ws.

(** The connector that goes with an argument sequence. *)
Definition connector_for (a : list iface) : string :=
  match a with
  | [] => " WHERE "
  | _ :: _ => " AND "
  end.

(** The text that a run of accepted [Where] calls adds to the query of a
    builder whose argument sequence is [a]. *)
Fixpoint clauses (a : list iface) (ws : list (string * iface)) : string :=
  match ws with
  | [] => ""
  | w :: rest => (connector_for a ++ fst w) ++ clauses (a ++ [snd w])%list rest
  end.

(** Number of positional markers [?] in a piece of SQL text. *)
Fixpoint placeholders (s : string) : nat :=
  match s with
  | EmptyString => 0
  | String c rest =>
      (if Ascii.eqb c "?"%char then 1 else 0) + placeholders rest
  end.

(** Marker order matches argument order: the query [q] has one marker
    for each argument of [a], and the marker that comes after [k] others
    is the one of the accepted call number [k], whose value is the
    argument number [k]. *)
Definition markers_match_arguments (q : string)
    (calls : list (string * iface)) (a : list iface) : Prop :=
  placeholders q = List.length a
  /\ forall (k : nat) (P : string) (v : iface),
      nth_error calls k = Some (P, v) ->
      nth_error a k = Some v
      /\ exists pre post, q = pre ++ P ++ post /\ placeholders pre = k.

(** [qb'] is [qb] with text added at the end of the query and values added
    at the end of the argument sequence. *)
Definition extends (qb qb' : QueryBuilder) : Prop :=
  exists (text : string) (vals : list iface),
    query qb' = query qb ++ text /\ args qb' = (args qb ++ vals)%list.

(** The [WHERE] clause for a list of conditions: nothing for no
    condition, else the conditions joined with [" AND "]. *)
Definition where_clause (conditions : list string) : string :=
  match conditions with
  | [] => ""
  | _ :: _ => " WHERE " ++ String.concat " AND " conditions
  end.

(** A [GROUP BY] or [ORDER BY] clause: nothing for no column, else the
    keyword and the columns joined with [", "]. *)
Definition columns_clause (keyword : string) (columns : list string) : string :=
  match columns with
  | [] => ""
  | _ :: _ => keyword ++ String.concat ", " columns
  end.

(** ** The connection string parser (connect.go) *)

(** [strings.Split(s, sep)] for a separator of one byte, as in both calls
    of [ParseDSN]: the pieces of [s] between the occurrences of [sep],
    one more than there are occurrences. *)
Fixpoint Split (s : string) (sep : ascii) : list string :=
  match s with
  | EmptyString => [""]
  | String c rest =>
      if Ascii.eqb c sep then "" :: Split rest sep
      else match Split rest sep with
           | [] => [String c ""]
           | piece :: pieces => String c piece :: pieces
           end
  end.

(** A [map[string]string]: the assignments made so far, latest first.
    Reading a key that was never assigned gives the zero value [""]. *)
Definition gomap : Type := list (string * string).

Definition map_set (m : gomap) (k v : string) : gomap := (k, v) :: m.

Fixpoint map_get (m : gomap) (k : string) : string :=
  match m with
  | [] => ""
  | (k', v) :: rest => if String.eqb k' k then v else map_get rest k
  end.

(** Conversion of an integer to [int8]: the result wraps around. *)
Definition wrap_int8 (z : Z) : Z := ((z + 128) mod 256 - 128)%Z.

(** [*strconv.NumError]: the text that failed to parse and the reason. *)
Inductive NumError : Type :=
| ErrSyntax (num : string)
| ErrRange (num : string).

Definition digit_value (c : ascii) : option Z :=
  let n := Z.of_nat (nat_of_ascii c) in
  if ((48 <=? n) && (n <=? 57))%Z then Some (n - 48)%Z else None.

Definition maxUint64 : Z := (2 ^ 64 - 1)%Z.

(** The loop of [strconv.ParseUint(s, 10, 64)] over the bytes of [s],
    with [n] the number read so far: [inl true] is a syntax error,
    [inl false] a range error. *)
Fixpoint ParseUint_loop (s : string) (n : Z) : bool + Z :=
  match s with
  | EmptyString => inr n
  | String c rest =>
      match digit_value c with
      | None => inl true
      | Some d =>
          if (maxUint64 / 10 + 1 <=? n)%Z then inl false
          else
            let n1 := (n * 10 + d)%Z in
            if (maxUint64 <? n1)%Z then inl false
            else ParseUint_loop rest n1
      end
  end.

(** [strconv.Atoi(s)] where [int] has 64 bits: an optional sign and then
    decimal digits, at least one; the value has to fit in [int]. *)
Definition Atoi (s : string) : NumError + Z :=
  match s with
  | EmptyString => inl (ErrSyntax s)
  | String c rest =>
      let neg := Ascii.eqb c "-" in
      let digits := if Ascii.eqb c "+" || neg then rest else s in
      if String.eqb digits "" then inl (ErrSyntax s)
      else
        match ParseUint_loop digits 0 with
        | inl true => inl (ErrSyntax s)
        | inl false => inl (ErrRange s)
        | inr un =>
            if negb neg && (2 ^ 63 <=? un)%Z then inl (ErrRange s)
            else if neg && (2 ^ 63 <? un)%Z then inl (ErrRange s)
            else inr (if neg then (- un)%Z else un)
        end
  end.

Arguments Atoi : simpl never.

(** The errors that [ParseDSN] makes with [fmt.Errorf]. *)
Inductive error : Type :=
| Errorf (msg : string)
| InvalidHost (host : string) (err : string)
| InvalidPort (err : option NumError).

(** [type PgConfig struct] *)
Record PgConfig : Type := mkPgConfig {
  Database : string;
  User : string;
  Password : string;
  Host : string;
  Port : string;
  SSLMode : string;
  Timezone : string
}.

(** The loop of [ParseDSN] over the pieces of the DSN: a piece with
    exactly one [=] is stored in the map and counted in [keys], an
    [int8]. *)
Definition scan_piece (st : Z * gomap) (s : string) : Z * gomap :=
  let v := Split s "=" in
  if (List.length v =? 2)%nat
  then (wrap_int8 (fst st + 1), map_set (snd st) (nth 0 v "") (nth 1 v ""))
  else st.

Definition scan_pieces (pieces : list string) : Z * gomap :=
  fold_left scan_piece pieces (0%Z, []).

Definition set_Host (config : PgConfig) (v : string) : PgConfig :=
  {| Database := Database config; User := User config;
     Password := Password config; Host := v; Port := Port config;
     SSLMode := SSLMode config; Timezone := Timezone config |}.

Definition set_Port (config : PgConfig) (v : string) : PgConfig :=
  {| Database := Database config; User := User config;
     Password := Password config; Host := Host config; Port := v;
     SSLMode := SSLMode config; Timezone := Timezone config |}.

Definition set_SSLMode (config : PgConfig) (v : string) : PgConfig :=
  {| Database := Database config; User := User config;
     Password := Password config; Host := Host config; Port := Port config;
     SSLMode := v; Timezone := Timezone config |}.

Section ParseDSN.

(** The two functions of package [net] that [ParseDSN] calls:
    whether [net.ParseIP(host)] is not nil, and the error of
    [net.LookupIP(host)], [None] for a host that resolves. *)
Variable ParseIP : string -> bool.
Variable LookupIP : string -> option string.

(** The part of [ParseDSN] that deals with the port: the error, if
    any, and the configuration with its port written. *)
Definition parse_port (configMap : gomap) (config : PgConfig)
  : option error * PgConfig :=
  if negb (String.eqb (map_get configMap "port") "") then
    let config := set_Port config (map_get configMap "port") in
    match Atoi (Port config) with
    | inl err => (Some (InvalidPort (Some err)), config)
    | inr portNum =>
        if ((portNum <? 1) || (65535 <? portNum))%Z
        then (Some (InvalidPort None), config)
        else (None, config)
    end
  else (None, set_Port config "5432").

(** The part that deals with the host. *)
Definition parse_host (configMap : gomap) (config : PgConfig)
  : option error * PgConfig :=
  if String.eqb (map_get configMap "host") "" then
    (None, set_Host config "localhost")
  else if ParseIP (Host config) then (None, config)
  else match LookupIP (Host config) with
       | Some err => (Some (InvalidHost (Host config) err), config)
       | None => (None, config)
       end.

(** [func (config *PgConfig) ParseDSN(dsn string) error]: the error
    returned, [None] for nil, and the configuration after the call. *)
Definition ParseDSN (dsn : string) (config : PgConfig)
  : option error * PgConfig :=
  if String.eqb dsn "" then (Some (Errorf "DSN is empty"), config)
  else
    let (keys, configMap) := scan_pieces (Split dsn " ") in
    if (keys =? 0)%Z then (Some (Errorf "DSN is invalid"), config)
    else
      let config :=
        {| Database := map_get configMap "dbname";
           User := map_get configMap "user";
           Host := map_get configMap "host";
           Password := map_get configMap "password";
           Timezone := map_get configMap "TimeZone";
           Port := Port config;
           SSLMode := SSLMode config |} in
      match parse_host configMap config with
      | (Some e, config) => (Some e, config)
      | (None, config) =>
          match parse_port configMap config with
          | (Some e, config) => (Some e, config)
          | (None, config) =>
              if negb (String.eqb (map_get configMap "sslmode") "")
              then (None, set_SSLMode config (map_get configMap "sslmode"))
              else (None, set_SSLMode config "disabled")
          end
      end.

End ParseDSN.

(** Number of occurrences of a byte in a text. *)
Fixpoint occurrences (c : ascii) (s : string) : nat :=
  match s with
  | EmptyString => 0
  | String c' rest => (if Ascii.eqb c' c then 1 else 0) + occurrences c rest
  end.

(** The pieces of a DSN that are one key and one value: those with
    exactly one [=]. *)
Definition pairs (pieces : list string) : list string :=
  filter (fun s => (occurrences "=" s =? 1)%nat) pieces.

(** A resolver for worked examples: no host is an IP address, and
    [localhost] is the one name that resolves. *)
Definition example_ParseIP (host : string) : bool := false.

Definition example_LookupIP (host : string) : option string :=
  if String.eqb host "localhost" then None else Some "no such host".

Definition example_config : PgConfig :=
  {| Database := "old"; User := "old"; Password := "old"; Host := "old";
     Port := "1"; SSLMode := "require"; Timezone := "UTC" |}.

(** ** The wrapper of [*gorm.DB] (gorm.go) *)

(** An argument handed to gorm: one value, or a slice of values
    ([[]any]) handed over as one argument. *)
Inductive gorm_arg : Type :=
| Arg (v : iface)
| ArgSlice (values : list iface).

(** A call [db.Where(query, args...)] on a [*gorm.DB]. *)
Inductive gorm_call : Type :=
| DBWhere (query : string) (args : list gorm_arg).

(** A [*gorm.DB], as far as the filters of the wrapper go: the [Where]
    calls that made it, first to last. [gdb.db = gdb.db.Where(...)] adds
    one call at the end. *)
Definition gormDB : Type := list gorm_call.

Definition db_Where (db : gormDB) (query : string) (args : list gorm_arg)
  : gormDB :=
  (db ++ [DBWhere query args])%list.

(** [x != nil] for [x] of type [interface{}]. *)
Definition not_nil (x : iface) : bool :=
  match x with
  | INil => false
  | _ => true
  end.

(** [s != ""] for [s] of type [string]. *)
Definition not_empty (s : string) : bool := negb (String.eqb s "").

Module GormDB.

Definition JSONFilter (column key : string) (value : iface) (gdb : gormDB)
  : gormDB :=
  db_Where gdb (column ++ "->>? = ?") [Arg (IString key); Arg value].

Definition DateRange (column start end_ : string) (gdb : gormDB) : gormDB :=
  if not_empty start && not_empty end_ then
    db_Where gdb (column ++ " BETWEEN ? AND ?")
      [Arg (IString start); Arg (IString end_)]
  else if not_empty start then
    db_Where gdb (column ++ " >= ?") [Arg (IString start)]
  else if not_empty end_ then
    db_Where gdb (column ++ " <= ?") [Arg (IString end_)]
  else gdb.

Definition InRange (column : string) (start end_ : iface) (gdb : gormDB)
  : gormDB :=
  if not_nil start && not_nil end_ then
    db_Where gdb (column ++ " BETWEEN ? AND ?") [Arg start; Arg end_]
  else if not_nil start then
    db_Where gdb (column ++ " >= ?") [Arg start]
  else if not_nil end_ then
    db_Where gdb (column ++ " <= ?") [Arg end_]
  else gdb.

Definition MonthRange (column start end_ : string) (gdb : gormDB) : gormDB :=
  if not_empty start && not_empty end_ then
    db_Where gdb
      (column ++ " BETWEEN DATE_TRUNC('month', ?::DATE) AND DATE_TRUNC('month', ?::DATE)")
      [Arg (IString start); Arg (IString end_)]
  else if not_empty start then
    db_Where gdb (column ++ " >= DATE_TRUNC('month', ?::DATE)")
      [Arg (IString start)]
  else if not_empty end_ then
    db_Where gdb (column ++ " <= DATE_TRUNC('month', ?::DATE)")
      [Arg (IString end_)]
  else gdb.

Definition YearRange (column start end_ : string) (gdb : gormDB) : gormDB :=
  if not_empty start && not_empty end_ then
    db_Where gdb
      (column ++ " BETWEEN DATE_TRUNC('year', ?::DATE) AND DATE_TRUNC('year', ?::DATE)")
      [Arg (IString start); Arg (IString end_)]
  else if not_empty start then
    db_Where gdb (column ++ " >= DATE_TRUNC('year', ?::DATE)")
      [Arg (IString start)]
  else if not_empty end_ then
    db_Where gdb (column ++ " <= DATE_TRUNC('year', ?::DATE)")
      [Arg (IString end_)]
  else gdb.

Definition ILIKE (column value : string) (gdb : gormDB) : gormDB :=
  if not_empty value then
    db_Where gdb (column ++ " ILIKE ?") [Arg (IString ("%" ++ value ++ "%"))]
  else gdb.

(** [Eq] and [NotEq] compare an [interface{}] with [""], as
    [QueryBuilder.Where] does. *)
Definition Eq (column : string) (value : iface) (gdb : gormDB)
  : outcome gormDB :=
  match iface_neq value (IString "") with
  | Returns true => Returns (db_Where gdb (column ++ " = ?") [Arg value])
  | Returns false => Returns gdb
  | Panics msg => Panics msg
  end.

Definition NotEq (column : string) (value : iface) (gdb : gormDB)
  : outcome gormDB :=
  match iface_neq value (IString "") with
  | Returns true => Returns (db_Where gdb (column ++ " != ?") [Arg value])
  | Returns false => Returns gdb
  | Panics msg => Panics msg
  end.

Definition In (column : string) (values : list iface) (gdb : gormDB)
  : gormDB :=
  if (0 <? List.length values)%nat then
    db_Where gdb (column ++ " IN ?") [ArgSlice values]
  else gdb.

Definition NotIn (column : string) (values : list iface) (gdb : gormDB)
  : gormDB :=
  if (0 <? List.length values)%nat then
    db_Where gdb (column ++ " NOT IN ?") [ArgSlice values]
  else gdb.

Definition IsNull (column : string) (isNull : bool) (gdb : gormDB) : gormDB :=
  if isNull then db_Where gdb (column ++ " IS NULL") []
  else db_Where gdb (column ++ " IS NOT NULL") [].

(** One call of a filter of the wrapper, as data. *)
Inductive filter : Type :=
| CallJSONFilter (column key : string) (value : iface)
| CallDateRange (column start end_ : string)
| CallInRange (column : string) (start end_ : iface)
| CallMonthRange (column start end_ : string)
| CallYearRange (column start end_ : string)
| CallILIKE (column value : string)
| CallEq (column : string) (value : iface)
| CallNotEq (column : string) (value : iface)
| CallIn (column : string) (values : list iface)
| CallNotIn (column : string) (values : list iface)
| CallIsNull (column : string) (isNull : bool).

Definition run (f : filter) (gdb : gormDB) : outcome gormDB :=
  match f with
  | CallJSONFilter column key value => Returns (JSONFilter column key value gdb)
  | CallDateRange column start end_ => Returns (DateRange column start end_ gdb)
  | CallInRange column start end_ => Returns (InRange column start end_ gdb)
  | CallMonthRange column start end_ => Returns (MonthRange column start end_ gdb)
  | CallYearRange column start end_ => Returns (YearRange column start end_ gdb)
  | CallILIKE column value => Returns (ILIKE column value gdb)
  | CallEq column value => Eq column value gdb
  | CallNotEq column value => NotEq column value gdb
  | CallIn column values => Returns (In column values gdb)
  | CallNotIn column values => Returns (NotIn column values gdb)
  | CallIsNull column isNull => Returns (IsNull column isNull gdb)
  end.


(** A chain of filter calls, first to last. *)
Fixpoint chain (fs : list filter) (gdb : gormDB) : outcome gormDB :=
  match fs with
  | [] => Returns gdb
  | f :: rest =>
      match run f gdb with
      | Returns gdb' => chain rest gdb'
      | Panics msg => Panics msg
      end
  end.

End GormDB.


(** ** Pagination (gorm.go) *)

(** Conversion of an integer to [int], which has 64 bits. *)
Definition wrap_int64 (z : Z) : Z := ((z + 2 ^ 63) mod 2 ^ 64 - 2 ^ 63)%Z.

(** [type PagedResponse[T any] struct] *)
Record PagedResponse (T : Type) : Type := mkPagedResponse {
  Page : Z;
  PageSize : Z;
  TotalPages : Z;
  Count : Z;
  HasNext : bool;
  HasPrev : bool;
  Results : list T
}.

Arguments mkPagedResponse {T}.
Arguments Page {T}.
Arguments PageSize {T}.
Arguments TotalPages {T}.
Arguments Count {T}.
Arguments HasNext {T}.
Arguments HasPrev {T}.
Arguments Results {T}.

Section GetPaginated.

Variable T : Type.
Variable dberror : Type.

(** What the database answers: the result of
    [db.Model(model).Count(&totalCount)], the result of
    [db.Model(model).Offset(offset).Limit(limit).Find(&results)], and
    the value of [int64(math.Ceil(float64(a) / float64(b)))], which is
    floating point arithmetic and is not computed here. *)
Variable db_Count : dberror + Z.
Variable db_Find : Z -> Z -> dberror + list T.
Variable float_ceil_div : Z -> Z -> Z.

Definition GetPaginated (page pageSize : Z) : dberror + PagedResponse T :=
  let page := if (page <? 1)%Z then 1%Z else page in
  let offset := wrap_int64 ((page - 1) * pageSize) in
  match db_Count with
  | inl err => inl err
  | inr totalCount =>
      match db_Find offset pageSize with
      | inl err => inl err
      | inr results =>
          inr {| Page := page;
                 PageSize := pageSize;
                 HasNext := (wrap_int64 (page * pageSize) <? totalCount)%Z;
                 HasPrev := (1 <? page)%Z;
                 Results := results;
                 Count := totalCount;
                 TotalPages := float_ceil_div totalCount pageSize |}
      end
  end.

End GetPaginated.

(** * Properties *)

(** ** Strings *)

Lemma append_nil_r (s : string) : s ++ "" = s.
Proof. induction s as [|c s IH]; simpl; [reflexivity | now rewrite IH]. Qed.

Lemma append_assoc (s t u : string) : (s ++ t) ++ u = s ++ (t ++ u).
Proof. induction s as [|c s IH]; simpl; [reflexivity | now rewrite IH]. Qed.

Lemma append_inv_head (s t u : string) : s ++ t = s ++ u -> t = u.
Proof.
  induction s as [|c s IH]; simpl; intros H; [exact H|].
  injection H as H. now apply IH.
Qed.

Lemma placeholders_append (s t : string) :
  placeholders (s ++ t) = placeholders s + placeholders t.
Proof.
  induction s as [|c s IH]; simpl; [reflexivity|].
  rewrite IH. now rewrite Nat.add_assoc.
Qed.

Lemma placeholders_connector (a : list iface) :
  placeholders (connector_for a) = 0.
Proof. destruct a; reflexivity. Qed.

(** [strings.Join] builds the same text as the standard [String.concat]. *)
Lemma Join_fold (sep : string) (rest : list string) (b s : string) :
  fold_left (fun b s => (b ++ sep) ++ s) rest (b ++ s)
  = b ++ fold_left (fun b s => (b ++ sep) ++ s) rest s.
Proof.
  revert b s. induction rest as [|x rest IH]; intros b s; simpl.
  - reflexivity.
  - rewrite <- IH. now rewrite !append_assoc.
Qed.

Lemma Join_concat (elems : list string) (sep : string) :
  Join elems sep = String.concat sep elems.
Proof.
  destruct elems as [|first rest]; [reflexivity|].
  unfold Join. revert first.
  induction rest as [|x rest IH]; intros first; [reflexivity|].
  change (String.concat sep (first :: x :: rest))
    with (first ++ sep ++ String.concat sep (x :: rest)).
  rewrite <- IH. simpl.
  rewrite append_assoc, Join_fold. now rewrite Join_fold.
Qed.

(** ** The comparison [value != ""] *)

Lemma is_empty_string_true (v : iface) :
  is_empty_string v = true <-> v = IString "".
Proof.
  destruct v; simpl; try (split; [discriminate | intros H; discriminate H]).
  rewrite String.eqb_eq. split; [now intros -> | now intros [= ->]].
Qed.

Lemma is_empty_string_false (v : iface) :
  is_empty_string v = false <-> v <> IString "".
Proof.
  rewrite <- is_empty_string_true. destruct (is_empty_string v); split;
    congruence.
Qed.

(** Comparing with the string [""] never panics: a value of another
    dynamic type differs from it, whatever that type is. *)
Lemma iface_neq_empty (v : iface) :
  iface_neq v (IString "") = Returns (negb (is_empty_string v)).
Proof. destruct v; reflexivity. Qed.

(** ** One call *)

Lemma Where_skip (condition : string) (v : iface) (qb : QueryBuilder) :
  is_empty_string v = true -> Where condition v qb = Returns (tt, qb).
Proof.
  intros H. unfold Where, bind, eval. rewrite iface_neq_empty, H. reflexivity.
Qed.

Lemma Where_accept (condition : string) (v : iface) (qb : QueryBuilder) :
  is_empty_string v = false ->
  Where condition v qb
  = Returns (tt, {| query := query qb ++ connector_for (args qb) ++ condition;
                    args := (args qb ++ [v])%list |}).
Proof.
  intros H. unfold Where, bind, eval. rewrite iface_neq_empty, H. simpl.
  destruct qb as [q [|x a]]; reflexivity.
Qed.

Lemma GroupBy_cons (c : string) (cs : list string) (qb : QueryBuilder) :
  GroupBy (c :: cs) qb
  = Returns (tt, {| query := query qb ++ " GROUP BY " ++ String.concat ", " (c :: cs);
                    args := args qb |}).
Proof. unfold GroupBy, bind. cbn -[String.concat Join]. now rewrite Join_concat. Qed.

Lemma OrderBy_cons (c : string) (cs : list string) (qb : QueryBuilder) :
  OrderBy (c :: cs) qb
  = Returns (tt, {| query := query qb ++ " ORDER BY " ++ String.concat ", " (c :: cs);
                    args := args qb |}).
Proof. unfold OrderBy, bind. cbn -[String.concat Join]. now rewrite Join_concat. Qed.

Lemma builder_eta (qb : QueryBuilder) :
  {| query := query qb; args := args qb |} = qb.
Proof. now destruct qb. Qed.

(** ** The claims about single calls *)

(** C1. Mixed filters, end to end: on [NewQueryBuilder "SELECT a FROM t"],
    the calls [Where("x=?", "")], [Where("y=?", "5")], [Where("z=?", "")],
    [Where("w=?", "hi")] and then [Build()] return the query
    ["SELECT a FROM t WHERE y=? AND w=?"] and the arguments ["5"; "hi"]. *)
Theorem mixed_filters_scenario :
  (Where "x=?" (IString "") ;;
   Where "y=?" (IString "5") ;;
   Where "z=?" (IString "") ;;
   Where "w=?" (IString "hi") ;;
   Build) (NewQueryBuilder "SELECT a FROM t")
  = Returns (("SELECT a FROM t WHERE y=? AND w=?", [IString "5"; IString "hi"]),
             {| query := "SELECT a FROM t WHERE y=? AND w=?";
                args := [IString "5"; IString "hi"] |}).
Proof. reflexivity. Qed.

(** C3. A [Where] call with the empty string does nothing: the query and
    the argument sequence of the builder are what they were. *)
Theorem Where_empty_string_noop (qb : QueryBuilder) (P : string) :
  Where P (IString "") qb = Returns (tt, qb).
Proof. now apply Where_skip. Qed.

(** C5. [GroupBy] with no column leaves the builder as it is; with columns
    it appends [" GROUP BY "] and the columns joined with [", "] in the
    order given, and leaves the arguments alone. [OrderBy] does the same
    with [" ORDER BY "]. A second call appends a second clause. *)
Theorem GroupBy_OrderBy_contract (qb : QueryBuilder) :
  GroupBy [] qb = Returns (tt, qb)
  /\ OrderBy [] qb = Returns (tt, qb)
  /\ (forall c cs,
        GroupBy (c :: cs) qb
        = Returns (tt, {| query := query qb ++ " GROUP BY "
                                     ++ String.concat ", " (c :: cs);
                          args := args qb |}))
  /\ (forall c cs,
        OrderBy (c :: cs) qb
        = Returns (tt, {| query := query qb ++ " ORDER BY "
                                     ++ String.concat ", " (c :: cs);
                          args := args qb |}))
  /\ (forall c cs d ds,
        (GroupBy (c :: cs) ;; GroupBy (d :: ds)) qb
        = Returns (tt, {| query := (query qb ++ " GROUP BY "
                                      ++ String.concat ", " (c :: cs))
                                     ++ " GROUP BY "
                                     ++ String.concat ", " (d :: ds);
                          args := args qb |}))
  /\ (forall c cs d ds,
        (OrderBy (c :: cs) ;; OrderBy (d :: ds)) qb
        = Returns (tt, {| query := (query qb ++ " ORDER BY "
                                      ++ String.concat ", " (c :: cs))
                                     ++ " ORDER BY "
                                     ++ String.concat ", " (d :: ds);
                          args := args qb |})).
Proof.
  repeat split; intros.
  - apply GroupBy_cons.
  - apply OrderBy_cons.
  - unfold bind at 1. rewrite GroupBy_cons. now rewrite GroupBy_cons.
  - unfold bind at 1. rewrite OrderBy_cons. now rewrite OrderBy_cons.
Qed.

(** C6. The call is skipped exactly when the value is the string [""];
    every other value is appended as argument after its clause, and the
    number zero is such a value. *)
Theorem Where_sentinel (qb : QueryBuilder) (P : string) (v : iface) :
  (Where P v qb = Returns (tt, qb) <-> v = IString "")
  /\ (v <> IString "" ->
      Where P v qb
      = Returns (tt, {| query := query qb ++ connector_for (args qb) ++ P;
                        args := (args qb ++ [v])%list |}))
  /\ Where P (IInt 0) qb
     = Returns (tt, {| query := query qb ++ connector_for (args qb) ++ P;
                       args := (args qb ++ [IInt 0])%list |}).
Proof.
  split; [split; intros H|split].
  - apply is_empty_string_true.
    destruct (is_empty_string v) eqn:E; [reflexivity|].
    rewrite (Where_accept P v qb E) in H. injection H as H.
    apply (f_equal (fun b => List.length (args b))) in H. simpl in H.
    rewrite length_app in H. simpl in H. lia.
  - subst v. now apply Where_skip.
  - intros H. apply Where_accept. now apply is_empty_string_false.
  - now apply Where_accept.
Qed.

Lemma Where_sentinel_witness :
  Where "n=?" (IInt 7) (NewQueryBuilder "SELECT a FROM t")
  = Returns (tt, {| query := "SELECT a FROM t WHERE n=?"; args := [IInt 7] |}).
Proof.
  destruct (Where_sentinel (NewQueryBuilder "SELECT a FROM t") "n=?" (IInt 7))
    as (_ & Hacc & _).
  exact (Hacc ltac:(discriminate)).
Defined.

(** C7. [Build()] on a builder fresh from [NewQueryBuilder Q] returns [Q]
    and no argument. *)
Theorem Build_fresh (Q : string) :
  Build (NewQueryBuilder Q) = Returns ((Q, []), NewQueryBuilder Q).
Proof. reflexivity. Qed.

(** C10. [nil] is not the sentinel: [Where(P, nil)] appends the connector
    and [P] and records [nil] as argument; so does a value of a defined
    string type that holds [""]. *)
Theorem Where_nil_accepted (qb : QueryBuilder) (P : string) :
  Where P INil qb
  = Returns (tt, {| query := query qb ++ connector_for (args qb) ++ P;
                    args := (args qb ++ [INil])%list |})
  /\ forall tname,
      Where P (INamedString tname "") qb
      = Returns (tt, {| query := query qb ++ connector_for (args qb) ++ P;
                        args := (args qb ++ [INamedString tname ""])%list |}).
Proof. split; intros; now apply Where_accept. Qed.

(** ** Call sequences: what a run of calls does *)

Lemma extends_refl (qb : QueryBuilder) : extends qb qb.
Proof.
  exists "", []. split; [now rewrite append_nil_r | now rewrite app_nil_r].
Qed.

Lemma extends_trans (qb1 qb2 qb3 : QueryBuilder) :
  extends qb1 qb2 -> extends qb2 qb3 -> extends qb1 qb3.
Proof.
  intros (t1 & v1 & Hq1 & Ha1) (t2 & v2 & Hq2 & Ha2).
  exists (t1 ++ t2), (v1 ++ v2)%list. split.
  - now rewrite Hq2, Hq1, append_assoc.
  - now rewrite Ha2, Ha1, <- app_assoc.
Qed.

Lemma exec_extends (c : call) (qb : QueryBuilder) :
  exists qb', exec c qb = Returns (tt, qb') /\ extends qb qb'.
Proof.
  destruct c as [P v | [|c cs] | [|c cs]]; simpl.
  - destruct (is_empty_string v) eqn:E.
    + exists qb. split; [now apply Where_skip | apply extends_refl].
    + eexists. split; [now apply Where_accept|].
      exists (connector_for (args qb) ++ P), [v]. now split.
  - exists qb. split; [reflexivity | apply extends_refl].
  - eexists. split; [apply GroupBy_cons|].
    exists (" GROUP BY " ++ String.concat ", " (c :: cs)), [].
    split; [reflexivity | simpl; now rewrite app_nil_r].
  - exists qb. split; [reflexivity | apply extends_refl].
  - eexists. split; [apply OrderBy_cons|].
    exists (" ORDER BY " ++ String.concat ", " (c :: cs)), [].
    split; [reflexivity | simpl; now rewrite app_nil_r].
Qed.

Lemma chain_cons (c : call) (cs : list call) (qb qb' : QueryBuilder) :
  exec c qb = Returns (tt, qb') -> chain (c :: cs) qb = chain cs qb'.
Proof. intros H. simpl. unfold bind. now rewrite H. Qed.

Lemma chain_extends (cs : list call) (qb : QueryBuilder) :
  exists qb', chain cs qb = Returns (tt, qb') /\ extends qb qb'.
Proof.
  revert qb. induction cs as [|c cs IH]; intros qb.
  - exists qb. split; [reflexivity | apply extends_refl].
  - destruct (exec_extends c qb) as (qb1 & Hc & He1).
    destruct (IH qb1) as (qb2 & Hcs & He2).
    exists qb2. split; [now rewrite (chain_cons c cs qb qb1 Hc)|].
    now apply extends_trans with qb1.
Qed.

Lemma wheres_cons (w : string * iface) (ws : list (string * iface))
    (qb qb' : QueryBuilder) :
  Where (fst w) (snd w) qb = Returns (tt, qb') ->
  wheres (w :: ws) qb = wheres ws qb'.
Proof. intros H. unfold wheres. simpl map. now apply chain_cons. Qed.

(** A run of [Where] calls adds the clauses of its accepted calls to the
    query and their values to the arguments, and nothing else. *)
Lemma wheres_spec (ws : list (string * iface)) (qb : QueryBuilder) :
  wheres ws qb
  = Returns (tt, {| query := query qb ++ clauses (args qb) (accepted ws);
                    args := (args qb ++ map snd (accepted ws))%list |}).
Proof.
  revert qb. induction ws as [|[P v] ws IH]; intros qb.
  - unfold wheres, accepted. simpl. unfold ret.
    now rewrite append_nil_r, app_nil_r, builder_eta.
  - unfold accepted. simpl filter. fold (accepted ws).
    destruct (is_empty_string v) eqn:E; simpl negb; cbv iota.
    + rewrite (wheres_cons (P, v) ws qb qb) by now apply Where_skip.
      apply IH.
    + rewrite (wheres_cons (P, v) ws qb _ (Where_accept P v qb E)).
      rewrite IH. simpl.
      now rewrite !append_assoc, <- app_assoc.
Qed.

Lemma accepted_values (ws : list (string * iface)) :
  map snd (accepted ws)
  = filter (fun v => negb (is_empty_string v)) (map snd ws).
Proof.
  unfold accepted. induction ws as [|[P v] ws IH]; [reflexivity|].
  simpl. destruct (is_empty_string v); simpl; now rewrite IH.
Qed.

(** With one marker in each fragment, the clauses of [n] accepted calls
    hold [n] markers. *)
Lemma placeholders_clauses (ws : list (string * iface)) (a : list iface) :
  forallb (fun w => (placeholders (fst w) =? 1)%nat) ws = true ->
  placeholders (clauses a ws) = List.length ws.
Proof.
  revert a. induction ws as [|[P v] ws IH]; intros a H; [reflexivity|].
  simpl in H. apply andb_prop in H as [HP Hws]. apply Nat.eqb_eq in HP.
  simpl. rewrite !placeholders_append, placeholders_connector, HP.
  now rewrite (IH _ Hws).
Qed.

(** The fragment of the accepted call number [k] stands in the clauses
    after exactly [k] markers. *)
Lemma clauses_nth (ws : list (string * iface)) (a : list iface) (k : nat)
    (P : string) (v : iface) :
  forallb (fun w => (placeholders (fst w) =? 1)%nat) ws = true ->
  nth_error ws k = Some (P, v) ->
  exists pre post,
    clauses a ws = pre ++ P ++ post /\ placeholders pre = k.
Proof.
  revert a k. induction ws as [|[P0 v0] ws IH]; intros a k H Hk.
  - destruct k; discriminate Hk.
  - simpl in H. apply andb_prop in H as [HP Hws]. apply Nat.eqb_eq in HP.
    simpl in HP. destruct k as [|k]; simpl in Hk.
    + injection Hk as -> ->.
      exists (connector_for a), (clauses (a ++ [v])%list ws). split.
      * simpl. now rewrite append_assoc.
      * apply placeholders_connector.
    + destruct (IH (a ++ [v0])%list k Hws Hk) as (pre & post & Hc & Hn).
      exists ((connector_for a ++ P0) ++ pre), post. split.
      * simpl. now rewrite Hc, !append_assoc.
      * rewrite !placeholders_append, placeholders_connector, HP, Hn.
        reflexivity.
Qed.

(** ** The claims about call sequences *)

(** C2. Connector selection: a [Where] call with a value other than the
    empty string appends [" WHERE "] and the condition when the argument
    sequence is empty, and [" AND "] and the condition when it is not.
    [Where] calls with the empty string made just before it change nothing
    of this; and after any run of [Where] calls on a fresh builder the
    connector is [" WHERE "] when none of them was accepted and [" AND "]
    when one was, however many calls were made. *)
Theorem Where_connector (qb : QueryBuilder) (P : string) (v : iface)
    (Hv : v <> IString "") :
  exists qb',
    Where P v qb = Returns (tt, qb')
    /\ args qb' = (args qb ++ [v])%list
    /\ (args qb = [] -> query qb' = query qb ++ " WHERE " ++ P)
    /\ (args qb <> [] -> query qb' = query qb ++ " AND " ++ P)
    /\ (forall skipped : list string,
          (wheres (map (fun P' => (P', IString "")) skipped) ;; Where P v) qb
          = Returns (tt, qb'))
    /\ (forall (Q : string) (ws : list (string * iface)),
          exists q,
            wheres ws (NewQueryBuilder Q)
            = Returns (tt, {| query := q; args := map snd (accepted ws) |})
            /\ (wheres ws ;; Where P v) (NewQueryBuilder Q)
               = Returns (tt, {| query := q ++ match accepted ws with
                                               | [] => " WHERE "
                                               | _ :: _ => " AND "
                                               end ++ P;
                                 args := (map snd (accepted ws) ++ [v])%list |})).
Proof.
  apply is_empty_string_false in Hv.
  eexists. split; [apply (Where_accept P v qb Hv)|]. simpl.
  split; [reflexivity|]. split; [now intros -> |]. split; [|split].
  - destruct (args qb); [congruence | reflexivity].
  - intros skipped. induction skipped as [|P' skipped IH].
    + apply (Where_accept P v qb Hv).
    + unfold bind in *. simpl map.
      now rewrite (wheres_cons (P', IString "") _ qb qb
                     (Where_skip P' (IString "") qb eq_refl)).
  - intros Q ws. eexists. split; [apply wheres_spec|].
    unfold bind at 1. rewrite wheres_spec, (Where_accept P v _ Hv). simpl.
    now destruct (accepted ws).
Qed.

Lemma Where_connector_witness :
  exists qb',
    Where "y=?" (IString "5") (NewQueryBuilder "SELECT a FROM t")
    = Returns (tt, qb')
    /\ query qb' = "SELECT a FROM t WHERE y=?".
Proof.
  destruct (Where_connector (NewQueryBuilder "SELECT a FROM t") "y=?"
              (IString "5") ltac:(discriminate)) as (qb' & Hrun & _ & Hw & _).
  exists qb'. split; [exact Hrun | exact (Hw eq_refl)].
Defined.

(** C4. Argument order: after any sequence of [Where] calls on a fresh
    builder, [Build()] returns as arguments the values of the calls that
    are not the empty string, in call order. When each accepted fragment
    holds exactly one marker [?], the query holds one marker per argument
    after those of the base query, and the marker of the accepted call
    number [k] is the one that comes after [k] others and those of the
    base query, as its value is the argument number [k]; so for a base
    query without marker, marker order matches argument order. *)
Theorem arguments_follow_call_order (Q : string) (ws : list (string * iface)) :
  exists (q : string) (a : list iface),
    (wheres ws ;; Build) (NewQueryBuilder Q)
    = Returns ((q, a), {| query := q; args := a |})
    /\ a = filter (fun v => negb (is_empty_string v)) (map snd ws)
    /\ (forallb (fun w => (placeholders (fst w) =? 1)%nat) (accepted ws) = true ->
        placeholders q = placeholders Q + List.length a
        /\ (forall (k : nat) (P : string) (v : iface),
              nth_error (accepted ws) k = Some (P, v) ->
              nth_error a k = Some v
              /\ exists pre post,
                  q = pre ++ P ++ post
                  /\ placeholders pre = placeholders Q + k)
        /\ (placeholders Q = 0 -> markers_match_arguments q (accepted ws) a)).
Proof.
  exists (Q ++ clauses [] (accepted ws)), (map snd (accepted ws)).
  split; [|split].
  - unfold bind. now rewrite wheres_spec.
  - apply accepted_values.
  - intros H.
    assert (Hcount : placeholders (Q ++ clauses [] (accepted ws))
                     = placeholders Q + List.length (map snd (accepted ws))).
    { rewrite placeholders_append, (placeholders_clauses _ _ H).
      now rewrite length_map. }
    assert (Hnth : forall (k : nat) (P : string) (v : iface),
               nth_error (accepted ws) k = Some (P, v) ->
               nth_error (map snd (accepted ws)) k = Some v
               /\ exists pre post,
                   Q ++ clauses [] (accepted ws) = pre ++ P ++ post
                   /\ placeholders pre = placeholders Q + k).
    { intros k P v Hk. split.
      - now rewrite nth_error_map, Hk.
      - destruct (clauses_nth _ [] k P v H Hk) as (pre & post & Hc & Hn).
        exists (Q ++ pre), post. split.
        + now rewrite Hc, append_assoc.
        + now rewrite placeholders_append, Hn. }
    split; [exact Hcount|]. split; [exact Hnth|].
    intros HQ. rewrite HQ in Hcount, Hnth. now split.
Qed.

Lemma arguments_follow_call_order_witness :
  exists q,
    (wheres [("x=?", IString ""); ("y=?", IString "5"); ("w=?", INil)] ;; Build)
      (NewQueryBuilder "SELECT a FROM t")
    = Returns ((q, [IString "5"; INil]), {| query := q; args := [IString "5"; INil] |})
    /\ placeholders q = 2.
Proof.
  destruct (arguments_follow_call_order "SELECT a FROM t"
              [("x=?", IString ""); ("y=?", IString "5"); ("w=?", INil)])
    as (q & a & Hrun & Ha & Hph).
  simpl in Ha. subst a. exists q. split; [exact Hrun|].
  exact (proj1 (Hph eq_refl)).
Defined.

(** A marker in the base query comes before those of the [Where] calls:
    one accepted call on the base query ["SELECT ? FROM t"] gives a query
    with two markers for one argument. *)
Lemma markers_shifted_by_base_query :
  forallb (fun w => (placeholders (fst w) =? 1)%nat)
    (accepted [("y=?", IString "5")]) = true
  /\ (wheres [("y=?", IString "5")] ;; Build) (NewQueryBuilder "SELECT ? FROM t")
     = Returns (("SELECT ? FROM t WHERE y=?", [IString "5"]),
                {| query := "SELECT ? FROM t WHERE y=?";
                   args := [IString "5"] |})
  /\ ~ markers_match_arguments "SELECT ? FROM t WHERE y=?"
         (accepted [("y=?", IString "5")]) [IString "5"].
Proof.
  split; [reflexivity|]. split; [reflexivity|].
  intros [Hcount _]. discriminate Hcount.
Qed.

(** C8. Append only, and reads that change nothing: after [Where],
    [GroupBy] or [OrderBy], and after any chain of them, the query starts
    with the query before and the arguments start with the arguments
    before; [Build()] leaves the builder as it is, and a second [Build()]
    returns the same pair as the first. *)
Theorem append_only_and_snapshot (qb : QueryBuilder) :
  (forall c : call,
      exists qb', exec c qb = Returns (tt, qb') /\ extends qb qb')
  /\ (forall cs : list call,
        exists qb', chain cs qb = Returns (tt, qb') /\ extends qb qb')
  /\ Build qb = Returns ((query qb, args qb), qb)
  /\ (r1 <- Build ;; r2 <- Build ;; ret (r1, r2)) qb
     = Returns (((query qb, args qb), (query qb, args qb)), qb).
Proof.
  split; [|split; [|split]].
  - intros c. apply exec_extends.
  - intros cs. apply chain_extends.
  - reflexivity.
  - reflexivity.
Qed.

Lemma Ptr_Where_some (P : string) (v : iface) (qb : QueryBuilder) :
  Ptr.Where P v (Some qb) = Ptr.at_pointer (Where P v qb).
Proof.
  unfold Ptr.Where, Where, Ptr.bind, bind, Ptr.eval, eval.
  rewrite iface_neq_empty.
  destruct (is_empty_string v); simpl; [reflexivity|].
  destruct qb as [q [|x a]]; reflexivity.
Qed.

Lemma Ptr_GroupBy_some (columns : list string) (qb : QueryBuilder) :
  Ptr.GroupBy columns (Some qb) = Ptr.at_pointer (GroupBy columns qb).
Proof. destruct columns; reflexivity. Qed.

Lemma Ptr_OrderBy_some (columns : list string) (qb : QueryBuilder) :
  Ptr.OrderBy columns (Some qb) = Ptr.at_pointer (OrderBy columns qb).
Proof. destruct columns; reflexivity. Qed.

Lemma Ptr_exec_some (c : call) (qb : QueryBuilder) :
  Ptr.exec c (Some qb) = Ptr.at_pointer (exec c qb).
Proof.
  destruct c; simpl;
    [apply Ptr_Where_some | apply Ptr_GroupBy_some | apply Ptr_OrderBy_some].
Qed.

(** On a receiver that is not [nil], a chain of calls does what it does
    on the builder pointed to. *)
Lemma Ptr_chain_some (cs : list call) (qb : QueryBuilder) :
  Ptr.chain cs (Some qb) = Ptr.at_pointer (chain cs qb).
Proof.
  revert qb. induction cs as [|c cs IH]; intros qb; [reflexivity|].
  destruct (exec_extends c qb) as (qb1 & Hc & _).
  simpl. unfold Ptr.bind, bind. rewrite Ptr_exec_some, Hc. simpl. apply IH.
Qed.

(** C9. Totality, on a receiver that is not [nil]: a chain of calls on
    the builder that [NewQueryBuilder] returns, followed by [Build()],
    returns a result; each of [Where], [GroupBy], [OrderBy] and [Build]
    returns on every receiver that points to a builder, also for a value
    that Go cannot compare, for a fragment without a marker and for a
    second [GroupBy]. *)
Theorem builder_total :
  (forall (Q : string) (cs : list call),
      exists r qb',
        Ptr.bind (Ptr.chain cs) (fun _ => Ptr.Build) (Ptr.NewQueryBuilder Q)
        = Returns (r, Some qb'))
  /\ (forall qb P v, exists qb',
        Ptr.Where P v (Some qb) = Returns (tt, Some qb'))
  /\ (forall qb columns, exists qb',
        Ptr.GroupBy columns (Some qb) = Returns (tt, Some qb'))
  /\ (forall qb columns, exists qb',
        Ptr.OrderBy columns (Some qb) = Returns (tt, Some qb'))
  /\ (forall qb, exists r, Ptr.Build (Some qb) = Returns (r, Some qb))
  /\ (forall qb P elems, exists qb',
        Ptr.Where P (IStringSlice elems) (Some qb) = Returns (tt, Some qb'))
  /\ Ptr.Where "x IS NULL" (IString "v") (Ptr.NewQueryBuilder "SELECT a FROM t")
     = Returns (tt, Some {| query := "SELECT a FROM t WHERE x IS NULL";
                            args := [IString "v"] |})
  /\ Ptr.bind (Ptr.GroupBy ["a"]) (fun _ => Ptr.GroupBy ["b"])
       (Ptr.NewQueryBuilder "SELECT a FROM t")
     = Returns (tt, Some {| query := "SELECT a FROM t GROUP BY a GROUP BY b";
                            args := [] |}).
Proof.
  assert (HE : forall c qb, exists qb',
             Ptr.exec c (Some qb) = Returns (tt, Some qb')).
  { intros c qb. destruct (exec_extends c qb) as (qb' & H & _).
    exists qb'. now rewrite Ptr_exec_some, H. }
  repeat split.
  - intros Q cs.
    destruct (chain_extends cs (NewQueryBuilder Q)) as (qb' & H & _).
    exists (query qb', args qb'), qb'. unfold Ptr.bind, Ptr.NewQueryBuilder.
    fold (NewQueryBuilder Q). now rewrite Ptr_chain_some, H.
  - intros qb P v. apply (HE (CallWhere P v)).
  - intros qb columns. apply (HE (CallGroupBy columns)).
  - intros qb columns. apply (HE (CallOrderBy columns)).
  - intros qb. now exists (query qb, args qb).
  - intros qb P elems. apply (HE (CallWhere P (IStringSlice elems))).
Qed.

(** On a [nil] receiver each method panics as soon as it reads a field:
    [Where] with an accepted value, [GroupBy] and [OrderBy] with a
    column, and [Build]. *)
Lemma nil_receiver_panics :
  Ptr.Where "x=?" (IString "5") None = Panics Ptr.nil_dereference
  /\ Ptr.GroupBy ["a"] None = Panics Ptr.nil_dereference
  /\ Ptr.OrderBy ["a"] None = Panics Ptr.nil_dereference
  /\ Ptr.Build None = Panics Ptr.nil_dereference.
Proof. repeat split. Qed.

(** The comparison of two interface values can panic, as in Go: the model
    of [==] is not total, the builder is. *)
Example iface_eq_can_panic :
  iface_eq (IStringSlice ["a"]) (IStringSlice ["a"])
  = Panics "runtime error: comparing uncomparable type []string".
Proof. reflexivity. Qed.

(** ** The builder used as its documentation shows *)

Lemma clauses_joined (ws : list (string * iface)) (a : list iface) (p : string) :
  a <> [] ->
  p ++ clauses a ws = String.concat " AND " (p :: map fst ws).
Proof.
  revert a p. induction ws as [|w ws IH]; intros a p Ha.
  - simpl. apply append_nil_r.
  - change (String.concat " AND " (p :: map fst (w :: ws)))
      with (p ++ " AND " ++ String.concat " AND " (fst w :: map fst ws)).
    rewrite <- (IH (a ++ [snd w])%list (fst w)) by now destruct a.
    simpl clauses. destruct a as [|x a]; [contradiction|].
    simpl connector_for. now rewrite !append_assoc.
Qed.

Lemma clauses_where_clause (ws : list (string * iface)) :
  clauses [] ws = where_clause (map fst ws).
Proof.
  destruct ws as [|w ws]; [reflexivity|].
  simpl clauses. simpl map. unfold where_clause.
  rewrite <- (clauses_joined ws [snd w] (fst w)) by discriminate.
  reflexivity.
Qed.

Lemma GroupBy_columns_clause (columns : list string) (qb : QueryBuilder) :
  GroupBy columns qb
  = Returns (tt, {| query := query qb ++ columns_clause " GROUP BY " columns;
                    args := args qb |}).
Proof.
  destruct columns as [|c cs]; [|apply GroupBy_cons].
  unfold GroupBy, ret. simpl. now rewrite append_nil_r, builder_eta.
Qed.

Lemma OrderBy_columns_clause (columns : list string) (qb : QueryBuilder) :
  OrderBy columns qb
  = Returns (tt, {| query := query qb ++ columns_clause " ORDER BY " columns;
                    args := args qb |}).
Proof.
  destruct columns as [|c cs]; [|apply OrderBy_cons].
  unfold OrderBy, ret. simpl. now rewrite append_nil_r, builder_eta.
Qed.

(** X12. The builder used as [NewQueryBuilder] documents it: [Where]
    calls, then [GroupBy], then [OrderBy], then [Build()], on a fresh
    builder for [Q]. The query returned is [Q], then [" WHERE "] and the
    accepted conditions joined with [" AND "] if there is one, then
    [" GROUP BY "] and the columns joined with [", "] if there is one,
    then the same for [" ORDER BY "]; the arguments are the accepted
    values. *)
Theorem Build_after_documented_chain (Q : string) (ws : list (string * iface))
    (groupBy orderBy : list string) :
  (wheres ws ;; GroupBy groupBy ;; OrderBy orderBy ;; Build) (NewQueryBuilder Q)
  = let q := ((Q ++ where_clause (map fst (accepted ws)))
                ++ columns_clause " GROUP BY " groupBy)
               ++ columns_clause " ORDER BY " orderBy in
    let a := map snd (accepted ws) in
    Returns ((q, a), {| query := q; args := a |}).
Proof.
  unfold bind. rewrite wheres_spec, GroupBy_columns_clause.
  rewrite OrderBy_columns_clause. simpl.
  now rewrite clauses_where_clause.
Qed.

(** ** The connection string parser *)


Lemma Split_not_nil (s : string) (sep : ascii) : Split s sep <> [].
Proof.
  destruct s as [|c s]; simpl; [discriminate|].
  destruct (Ascii.eqb c sep); [discriminate|].
  destruct (Split s sep); discriminate.
Qed.

Lemma Split_length (s : string) (sep : ascii) :
  List.length (Split s sep) = S (occurrences sep s).
Proof.
  induction s as [|c s IH]; simpl; [reflexivity|].
  destruct (Ascii.eqb c sep); simpl; [now rewrite IH|].
  destruct (Split s sep) as [|p ps] eqn:E; [now apply Split_not_nil in E|].
  exact IH.
Qed.

Lemma Split_none (s : string) (sep : ascii) :
  occurrences sep s = 0 -> Split s sep = [s].
Proof.
  induction s as [|c s IH]; simpl; [reflexivity|].
  destruct (Ascii.eqb c sep); simpl; [discriminate|].
  intros H. now rewrite (IH H).
Qed.

Lemma Split_app (a b : string) (sep : ascii) :
  Split (a ++ String sep b) sep = (Split a sep ++ Split b sep)%list.
Proof.
  induction a as [|c a IH]; simpl.
  - now rewrite Ascii.eqb_refl.
  - destruct (Ascii.eqb c sep); [now rewrite IH|].
    rewrite IH. destruct (Split a sep) as [|p ps] eqn:E; [|reflexivity].
    now apply Split_not_nil in E.
Qed.


Lemma wrap_int8_succ (z : Z) :
  wrap_int8 (wrap_int8 z + 1) = wrap_int8 (z + 1).
Proof.
  unfold wrap_int8.
  replace (((z + 128) mod 256 - 128 + 1 + 128))%Z
    with (((z + 128) mod 256 + 1))%Z by lia.
  replace (z + 1 + 128)%Z with ((z + 128) + 1)%Z by lia.
  now rewrite Zplus_mod_idemp_l.
Qed.

Lemma wrap_int8_zero (n : nat) :
  wrap_int8 (Z.of_nat n) = 0%Z <-> n mod 256 = 0.
Proof.
  unfold wrap_int8.
  assert (H : (Z.of_nat (n mod 256) = Z.of_nat n mod 256)%Z)
    by (rewrite Nat2Z.inj_mod; reflexivity).
  split; intros E.
  - apply Nat2Z.inj. rewrite H. simpl Z.of_nat.
    revert E. generalize (Z.of_nat n). intros z E.
    Z.div_mod_to_equations; lia.
  - rewrite E in H. simpl Z.of_nat in H.
    revert H. generalize (Z.of_nat n). intros z H.
    Z.div_mod_to_equations; lia.
Qed.

Lemma scan_piece_pair (st : Z * gomap) (s : string) :
  occurrences "=" s = 1 ->
  scan_piece st s
  = (wrap_int8 (fst st + 1),
     map_set (snd st) (nth 0 (Split s "=") "") (nth 1 (Split s "=") "")).
Proof. intros H. unfold scan_piece. now rewrite Split_length, H. Qed.

Lemma scan_piece_other (st : Z * gomap) (s : string) :
  occurrences "=" s <> 1 -> scan_piece st s = st.
Proof.
  intros H. unfold scan_piece. rewrite Split_length.
  destruct (occurrences "=" s) as [|[|n]]; [reflexivity | congruence | reflexivity].
Qed.

(** The counter after the loop is the number of pairs, as an [int8]. *)
Lemma scan_keys (pieces : list string) (k : Z) (m : gomap) :
  fst (fold_left scan_piece pieces (wrap_int8 k, m))
  = wrap_int8 (k + Z.of_nat (List.length (pairs pieces))).
Proof.
  revert k m. induction pieces as [|s pieces IH]; intros k m; simpl.
  - now rewrite Z.add_0_r.
  - destruct (Nat.eqb_spec (occurrences "=" s) 1) as [E|E].
    + rewrite (scan_piece_pair _ s E). simpl fst. simpl snd.
      rewrite wrap_int8_succ, IH. simpl List.length. f_equal. lia.
    + rewrite (scan_piece_other _ s E). apply IH.
Qed.

Lemma scan_pieces_keys (pieces : list string) :
  fst (scan_pieces pieces) = 0%Z <-> List.length (pairs pieces) mod 256 = 0.
Proof.
  unfold scan_pieces. change 0%Z with (wrap_int8 0) at 1.
  rewrite scan_keys. simpl Z.add. apply wrap_int8_zero.
Qed.

Lemma scan_pieces_snoc_other (pieces : list string) (t : string) :
  occurrences "=" t <> 1 ->
  scan_pieces (pieces ++ [t]) = scan_pieces pieces.
Proof.
  intros H. unfold scan_pieces. rewrite fold_left_app. simpl.
  now apply scan_piece_other.
Qed.


Lemma parse_port_spec (m : gomap) (c : PgConfig) :
  match parse_port m c with
  | (None, c') =>
      c' = set_Port c (if String.eqb (map_get m "port") "" then "5432"
                       else map_get m "port")
      /\ exists portNum : Z,
          Atoi (Port c') = inr portNum /\ (1 <= portNum <= 65535)%Z
  | (Some e, c') =>
      c' = set_Port c (map_get m "port")
      /\ map_get m "port" <> ""
      /\ match e with
         | InvalidPort (Some err) => Atoi (map_get m "port") = inl err
         | InvalidPort None =>
             exists portNum : Z,
               Atoi (map_get m "port") = inr portNum
               /\ (portNum < 1 \/ 65535 < portNum)%Z
         | _ => False
         end
  end.
Proof.
  unfold parse_port.
  destruct (String.eqb_spec (map_get m "port") "") as [E|E]; simpl.
  - split; [reflexivity|]. exists 5432%Z. split; [vm_compute; reflexivity | lia].
  - destruct (Atoi (map_get m "port")) as [err|n] eqn:EA.
    + now repeat split.
    + destruct ((n <? 1) || (65535 <? n))%Z eqn:ER.
      * repeat split; [exact E|]. exists n. split; [reflexivity|].
        apply orb_true_iff in ER as [H|H]; lia.
      * split; [reflexivity|]. exists n. split; [exact EA|].
        apply orb_false_elim in ER as [H1 H2]. lia.
Qed.

Section ParseDSN_properties.

Variable ParseIP : string -> bool.
Variable LookupIP : string -> option string.

Lemma parse_host_spec (m : gomap) (c : PgConfig) :
  match parse_host ParseIP LookupIP m c with
  | (None, c') =>
      c' = (if String.eqb (map_get m "host") "" then set_Host c "localhost"
            else c)
      /\ (map_get m "host" = "" \/ ParseIP (Host c) = true
          \/ LookupIP (Host c) = None)
  | (Some e, c') =>
      c' = c /\ map_get m "host" <> "" /\ ParseIP (Host c) = false
      /\ exists err, LookupIP (Host c) = Some err
                     /\ e = InvalidHost (Host c) err
  end.
Proof.
  unfold parse_host.
  destruct (String.eqb_spec (map_get m "host") "") as [E|E].
  - split; [reflexivity | now left].
  - destruct (ParseIP (Host c)) eqn:EP.
    + split; [reflexivity | now (right; left)].
    + destruct (LookupIP (Host c)) as [err|] eqn:EL.
      * repeat split; [exact E|]. now exists err.
      * split; [reflexivity | now (right; right)].
Qed.

(** [ParseDSN] once the DSN is not empty and the counter is not zero. *)
Lemma ParseDSN_with_keys (dsn : string) (config : PgConfig) :
  dsn <> "" ->
  fst (scan_pieces (Split dsn " ")) <> 0%Z ->
  let m := snd (scan_pieces (Split dsn " ")) in
  let c0 := {| Database := map_get m "dbname"; User := map_get m "user";
               Password := map_get m "password"; Host := map_get m "host";
               Port := Port config; SSLMode := SSLMode config;
               Timezone := map_get m "TimeZone" |} in
  ParseDSN ParseIP LookupIP dsn config
  = match parse_host ParseIP LookupIP m c0 with
    | (Some e, c1) => (Some e, c1)
    | (None, c1) =>
        match parse_port m c1 with
        | (Some e, c2) => (Some e, c2)
        | (None, c2) =>
            (None, set_SSLMode c2
                     (if String.eqb (map_get m "sslmode") "" then "disabled"
                      else map_get m "sslmode"))
        end
    end.
Proof.
  intros Hd Hk. unfold ParseDSN. apply String.eqb_neq in Hd. rewrite Hd.
  destruct (scan_pieces (Split dsn " ")) as [keys m]. simpl in Hk.
  apply Z.eqb_neq in Hk. rewrite Hk. cbv zeta. simpl snd.
  destruct (parse_host _ _ _ _) as [[e|] c1]; [reflexivity|].
  destruct (parse_port _ _) as [[e|] c2]; [reflexivity|].
  now destruct (String.eqb (map_get m "sslmode") "").
Qed.

Lemma ParseDSN_no_keys (dsn : string) (config : PgConfig) :
  dsn <> "" ->
  fst (scan_pieces (Split dsn " ")) = 0%Z ->
  ParseDSN ParseIP LookupIP dsn config
  = (Some (Errorf "DSN is invalid"), config).
Proof.
  intros Hd Hk. unfold ParseDSN. apply String.eqb_neq in Hd. rewrite Hd.
  destruct (scan_pieces (Split dsn " ")) as [keys m]. simpl in Hk.
  now rewrite Hk.
Qed.

(** The three ways a call of [ParseDSN] can go. *)
Lemma ParseDSN_cases (dsn : string) (config : PgConfig) :
  (dsn = "" /\ ParseDSN ParseIP LookupIP dsn config
               = (Some (Errorf "DSN is empty"), config))
  \/ (dsn <> "" /\ fst (scan_pieces (Split dsn " ")) = 0%Z
      /\ ParseDSN ParseIP LookupIP dsn config
         = (Some (Errorf "DSN is invalid"), config))
  \/ (dsn <> "" /\ fst (scan_pieces (Split dsn " ")) <> 0%Z).
Proof.
  destruct (String.eqb_spec dsn "") as [Hd|Hd]; [left; now subst|].
  destruct (Z.eq_dec (fst (scan_pieces (Split dsn " "))) 0) as [E|E].
  - right; left. repeat split; try assumption. now apply ParseDSN_no_keys.
  - right; right. now split.
Qed.

(** X1. [ParseDSN] fails with "DSN is empty" exactly for the empty
    DSN. It fails with "DSN is invalid" exactly for a DSN that is not
    empty and whose number of pieces with exactly one [=] is a
    multiple of 256: none at all, or so many that the [int8] counter
    is back at zero. *)
Theorem ParseDSN_rejected (dsn : string) (config : PgConfig) :
  (fst (ParseDSN ParseIP LookupIP dsn config) = Some (Errorf "DSN is empty")
   <-> dsn = "")
  /\ (fst (ParseDSN ParseIP LookupIP dsn config) = Some (Errorf "DSN is invalid")
      <-> dsn <> "" /\ List.length (pairs (Split dsn " ")) mod 256 = 0).
Proof.
  pose proof (scan_pieces_keys (Split dsn " ")) as Hk.
  destruct (ParseDSN_cases dsn config) as [[Hd H]|[(Hd & E & H)|(Hd & E)]].
  - rewrite H. simpl. split; split; try easy; now intros [? _].
  - rewrite H. simpl. split; split; try easy. intros _. split; [exact Hd | now apply Hk].
  - assert (Hn : forall msg,
               fst (ParseDSN ParseIP LookupIP dsn config) <> Some (Errorf msg)).
    { intros msg. rewrite (ParseDSN_with_keys dsn config Hd E). cbv zeta.
      pose proof (parse_host_spec (snd (scan_pieces (Split dsn " ")))) as Hh.
      match goal with
      | |- context [parse_host _ _ ?m ?c] =>
          specialize (Hh c); destruct (parse_host ParseIP LookupIP m c) as [[e|] c1]
      end.
      - destruct Hh as (_ & _ & _ & err & _ & ->). discriminate.
      - match goal with
        | |- context [parse_port ?m ?c] =>
            pose proof (parse_port_spec m c) as Hp;
            destruct (parse_port m c) as [[e|] c2]
        end.
        + destruct Hp as (_ & _ & Hp). destruct e; try contradiction.
          discriminate.
        + discriminate. }
    split; split; intros H.
    + now apply Hn in H.
    + contradiction.
    + now apply Hn in H.
    + destruct H as [_ H]. apply Hk in H. contradiction.
Qed.

(** X2. When [ParseDSN] returns nil, the host, the port and the SSL
    mode it leaves in the configuration are not empty; the host is
    [localhost], an IP address or a name that resolved; the port is
    text that [strconv.Atoi] reads as a number from 1 to 65535. *)
Theorem ParseDSN_success (dsn : string) (config config' : PgConfig) :
  ParseDSN ParseIP LookupIP dsn config = (None, config') ->
  Host config' <> ""
  /\ (Host config' = "localhost" \/ ParseIP (Host config') = true
      \/ LookupIP (Host config') = None)
  /\ SSLMode config' <> ""
  /\ exists portNum : Z,
      Atoi (Port config') = inr portNum /\ (1 <= portNum <= 65535)%Z.
Proof.
  intros H.
  destruct (ParseDSN_cases dsn config) as [[Hd H']|[(Hd & E & H')|(Hd & E)]];
    try (rewrite H' in H; discriminate H).
  rewrite (ParseDSN_with_keys dsn config Hd E) in H. cbv zeta in H.
  set (m := snd (scan_pieces (Split dsn " "))) in *.
  match type of H with
  | context [parse_host _ _ m ?c] =>
      pose proof (parse_host_spec m c) as Hh;
      destruct (parse_host ParseIP LookupIP m c) as [[e|] c1]; [discriminate H|]
  end.
  pose proof (parse_port_spec m c1) as Hp.
  destruct (parse_port m c1) as [[e|] c2]; [discriminate H|].
  injection H as <-.
  destruct Hh as [-> Hh]. destruct Hp as [-> (n & Hn & Hr)]. simpl in *.
  destruct (String.eqb_spec (map_get m "host") "") as [Eh|Eh]; simpl in *.
  - repeat split; [discriminate | now left | | now exists n].
    destruct (String.eqb_spec (map_get m "sslmode") ""); [discriminate | assumption].
  - repeat split; [assumption | | | now exists n].
    + destruct Hh as [Hh|[Hh|Hh]]; [contradiction | now (right; left) | now (right; right)].
    + destruct (String.eqb_spec (map_get m "sslmode") ""); [discriminate | assumption].
Qed.

(** X3. What [ParseDSN] returns does not depend on what the
    configuration held before: the error is the same, and on success
    all seven fields are written, so the configuration after the call
    is the same. *)
Theorem ParseDSN_initial_config_irrelevant (dsn : string) (c1 c2 : PgConfig) :
  fst (ParseDSN ParseIP LookupIP dsn c1) = fst (ParseDSN ParseIP LookupIP dsn c2)
  /\ (fst (ParseDSN ParseIP LookupIP dsn c1) = None ->
      snd (ParseDSN ParseIP LookupIP dsn c1)
      = snd (ParseDSN ParseIP LookupIP dsn c2)).
Proof.
  destruct (ParseDSN_cases dsn c1) as [[Hd H]|[(Hd & E & H)|(Hd & E)]].
  - subst dsn. now split.
  - rewrite H, (ParseDSN_no_keys dsn c2 Hd E). now split.
  - rewrite !(ParseDSN_with_keys dsn _ Hd E). cbv zeta.
    set (m := snd (scan_pieces (Split dsn " "))).
    unfold parse_host, parse_port. simpl.
    destruct (String.eqb (map_get m "host") "");
      [|destruct (ParseIP (map_get m "host"));
        [|destruct (LookupIP (map_get m "host")); [now split|]]];
    (destruct (String.eqb (map_get m "port") ""); simpl;
     [now split|];
     destruct (Atoi (map_get m "port")) as [err|n]; [now split|];
     destruct ((n <? 1) || (65535 <? n))%Z; now split).
Qed.

(** X4. What an error of [ParseDSN] leaves behind. With "DSN is
    empty" or "DSN is invalid" the configuration is untouched. An
    invalid host is reported after the fields were written: the
    configuration holds the rejected host, which is not empty, not an
    IP address and did not resolve, and its port and SSL mode are the
    old ones. An invalid port leaves the rejected text as the port and
    the old SSL mode; the error wraps the error of [strconv.Atoi], or
    nil when the text is a number outside 1 to 65535. *)
Theorem ParseDSN_late_errors (dsn : string) (config config' : PgConfig)
    (e : error) :
  ParseDSN ParseIP LookupIP dsn config = (Some e, config') ->
  match e with
  | Errorf _ => config' = config
  | InvalidHost host err =>
      Host config' = host /\ host <> "" /\ ParseIP host = false
      /\ LookupIP host = Some err
      /\ Port config' = Port config /\ SSLMode config' = SSLMode config
  | InvalidPort err =>
      Port config' <> "" /\ SSLMode config' = SSLMode config
      /\ match err with
         | Some numerr => Atoi (Port config') = inl numerr
         | None => exists portNum : Z,
             Atoi (Port config') = inr portNum
             /\ (portNum < 1 \/ 65535 < portNum)%Z
         end
  end.
Proof.
  intros H.
  destruct (ParseDSN_cases dsn config) as [[Hd H']|[(Hd & E & H')|(Hd & E)]];
    try (rewrite H' in H; injection H as <- <-; reflexivity).
  rewrite (ParseDSN_with_keys dsn config Hd E) in H. cbv zeta in H.
  set (m := snd (scan_pieces (Split dsn " "))) in *.
  match type of H with
  | context [parse_host _ _ m ?c] =>
      pose proof (parse_host_spec m c) as Hh;
      destruct (parse_host ParseIP LookupIP m c) as [[e1|] c1]
  end.
  - injection H as <- <-. destruct Hh as (-> & Hne & HP & err & HL & ->).
    simpl in *. now repeat split.
  - pose proof (parse_port_spec m c1) as Hp.
    destruct (parse_port m c1) as [[e2|] c2]; [|discriminate H].
    injection H as <- <-. destruct Hh as [-> _].
    destruct Hp as (-> & Hne & Hp).
    destruct e2 as [msg|host err|[numerr|]]; try contradiction;
      simpl; (split; [exact Hne|]);
      (split; [now destruct (String.eqb (map_get m "host") "")|]); exact Hp.
Qed.



(** X6. A piece without [=] or with more than one [=] counts for
    nothing: adding it at the end of a DSN that is not empty changes
    neither the error nor the configuration. A value that holds a [=]
    is dropped in this way, with its key. *)
Theorem ParseDSN_ignores_other_pieces (dsn t : string) (config : PgConfig) :
  dsn <> "" ->
  occurrences " " t = 0 ->
  occurrences "=" t <> 1 ->
  ParseDSN ParseIP LookupIP (dsn ++ " " ++ t) config
  = ParseDSN ParseIP LookupIP dsn config.
Proof.
  intros Hd Hsp Heq. unfold ParseDSN.
  change (" " ++ t) with (String " " t).
  rewrite Split_app, (Split_none t " " Hsp), (scan_pieces_snoc_other _ t Heq).
  apply String.eqb_neq in Hd. rewrite Hd.
  destruct dsn as [|c dsn]; [discriminate Hd | reflexivity].
Qed.

End ParseDSN_properties.

Lemma ParseDSN_rejected_witness :
  fst (ParseDSN example_ParseIP example_LookupIP
         (String.concat " " (repeat "k=v" 256)) example_config)
  = Some (Errorf "DSN is invalid").
Proof.
  apply (proj2 (proj2 (ParseDSN_rejected example_ParseIP example_LookupIP
                         (String.concat " " (repeat "k=v" 256)) example_config))).
  split; [vm_compute; discriminate | vm_compute; reflexivity].
Defined.

Lemma ParseDSN_success_witness :
  exists portNum : Z, Atoi "5432" = inr portNum /\ (1 <= portNum <= 65535)%Z.
Proof.
  exact (proj2 (proj2 (proj2
    (ParseDSN_success example_ParseIP example_LookupIP
       "dbname=test user=postgres password=postgres host=localhost TimeZone=Asia/Kolkata"
       example_config
       {| Database := "test"; User := "postgres"; Password := "postgres";
          Host := "localhost"; Port := "5432"; SSLMode := "disabled";
          Timezone := "Asia/Kolkata" |}
       ltac:(vm_compute; reflexivity))))).
Defined.

Lemma ParseDSN_initial_config_irrelevant_witness :
  snd (ParseDSN example_ParseIP example_LookupIP "dbname=test user=postgres"
         example_config)
  = snd (ParseDSN example_ParseIP example_LookupIP "dbname=test user=postgres"
           (mkPgConfig "" "" "" "" "" "" "")).
Proof.
  apply (proj2 (ParseDSN_initial_config_irrelevant example_ParseIP
                  example_LookupIP "dbname=test user=postgres" example_config
                  (mkPgConfig "" "" "" "" "" "" ""))).
  vm_compute; reflexivity.
Defined.

Lemma ParseDSN_late_errors_witness :
  Port (snd (ParseDSN example_ParseIP example_LookupIP "dbname=test port=70000"
               example_config)) <> ""
  /\ SSLMode (snd (ParseDSN example_ParseIP example_LookupIP
                     "dbname=test port=70000" example_config))
     = "require".
Proof.
  pose proof (ParseDSN_late_errors example_ParseIP example_LookupIP
                "dbname=test port=70000" example_config
                (snd (ParseDSN example_ParseIP example_LookupIP
                        "dbname=test port=70000" example_config))
                (InvalidPort None) ltac:(vm_compute; reflexivity)) as H.
  destruct H as (H1 & H2 & _). split; [exact H1 | exact H2].
Defined.


Lemma ParseDSN_ignores_other_pieces_witness :
  ParseDSN example_ParseIP example_LookupIP "dbname=test password=a=b"
    example_config
  = ParseDSN example_ParseIP example_LookupIP "dbname=test" example_config.
Proof.
  apply (ParseDSN_ignores_other_pieces example_ParseIP example_LookupIP
           "dbname=test" "password=a=b" example_config).
  - discriminate.
  - reflexivity.
  - vm_compute; discriminate.
Defined.

(** ** The filters of the wrapper *)

Lemma app_one_neq {A : Type} (l : list A) (x : A) : (l ++ [x])%list <> l.
Proof.
  intros H. apply (f_equal (@List.length A)) in H.
  rewrite length_app in H. simpl in H. lia.
Qed.

Lemma not_empty_true (s : string) : not_empty s = true <-> s <> "".
Proof.
  unfold not_empty. rewrite negb_true_iff. apply String.eqb_neq.
Qed.

Lemma not_empty_false (s : string) : not_empty s = false <-> s = "".
Proof.
  unfold not_empty. rewrite negb_false_iff. apply String.eqb_eq.
Qed.




(** X8. [DateRange], [MonthRange] and [YearRange] leave the database as
    it is exactly when both bounds are the empty string; otherwise they
    add one [Where] call on the column, which binds the bounds that are
    not empty, start before end. *)
Theorem string_ranges_bind_given_bounds
    (range : string -> string -> string -> gormDB -> gormDB)
    (column start end_ : string) (gdb : gormDB) :
  In range [GormDB.DateRange; GormDB.MonthRange; GormDB.YearRange] ->
  (range column start end_ gdb = gdb <-> start = "" /\ end_ = "")
  /\ exists condition : string,
      (start <> "" \/ end_ <> "" ->
       range column start end_ gdb
       = (gdb ++ [DBWhere (column ++ condition)
                    (map (fun s => Arg (IString s))
                       (filter not_empty [start; end_]))])%list).
Proof.
  intros Hin. simpl in Hin.
  destruct Hin as [<-|[<-|[<-|[]]]];
    unfold GormDB.DateRange, GormDB.MonthRange, GormDB.YearRange, db_Where;
    simpl filter;
    destruct (not_empty start) eqn:Es, (not_empty end_) eqn:Ee; simpl;
    repeat match goal with
      | E : not_empty _ = true |- _ => apply not_empty_true in E
      | E : not_empty _ = false |- _ => apply not_empty_false in E
      end;
    (split;
     [split;
      [intros H; first [now apply app_one_neq in H | now split]
      |intros [H1 H2]; first [contradiction | reflexivity]]
     |first [eexists; intros H; reflexivity
            |exists ""; intros [H|H]; contradiction]]).
Qed.

Lemma string_ranges_bind_given_bounds_witness :
  exists condition : string,
    GormDB.MonthRange "DATE(created_at)" "" "2021-12-31" []
    = [DBWhere ("DATE(created_at)" ++ condition) [Arg (IString "2021-12-31")]].
Proof.
  destruct (string_ranges_bind_given_bounds GormDB.MonthRange
              "DATE(created_at)" "" "2021-12-31" []
              ltac:(right; left; reflexivity)) as (_ & condition & H).
  exists condition. apply H. right. discriminate.
Defined.

(** X9. [InRange] takes [nil], not the empty string, as the absent
    bound: it leaves the database as it is exactly when both bounds are
    [nil], and otherwise adds one [Where] call that binds the bounds that
    are not [nil], so an empty string is bound like any other value. *)
Theorem InRange_nil_is_absent (column : string) (start end_ : iface)
    (gdb : gormDB) :
  (GormDB.InRange column start end_ gdb = gdb <-> start = INil /\ end_ = INil)
  /\ exists condition : string,
      (start <> INil \/ end_ <> INil ->
       GormDB.InRange column start end_ gdb
       = (gdb ++ [DBWhere (column ++ condition)
                    (map Arg (filter not_nil [start; end_]))])%list).
Proof.
  assert (Hnil : forall x, not_nil x = false -> x = INil)
    by (intros x; destruct x; simpl; congruence).
  assert (Hnot : forall x, not_nil x = true -> x <> INil)
    by (intros x; destruct x; simpl; congruence).
  pose proof (Hnil start) as Hs0. pose proof (Hnot start) as Hs1.
  pose proof (Hnil end_) as He0. pose proof (Hnot end_) as He1.
  clear Hnil Hnot.
  unfold GormDB.InRange, db_Where. simpl filter.
  destruct (not_nil start), (not_nil end_); simpl;
    try specialize (Hs0 eq_refl); try specialize (Hs1 eq_refl);
    try specialize (He0 eq_refl); try specialize (He1 eq_refl);
    (split;
     [split;
      [intros H; first [now apply app_one_neq in H | now split]
      |intros [H1 H2]; first [contradiction | reflexivity]]
     |first [eexists; intros H; reflexivity
            |exists ""; intros [H|H]; contradiction]]).
Qed.

Lemma InRange_nil_is_absent_witness :
  exists condition : string,
    GormDB.InRange "age" (IString "") INil []
    = [DBWhere ("age" ++ condition) [Arg (IString "")]].
Proof.
  destruct (InRange_nil_is_absent "age" (IString "") INil [])
    as (_ & condition & H).
  exists condition. apply H. left. discriminate.
Defined.

(** X10. [Eq] and [NotEq] return for every value; they leave the
    database as it is exactly when the value is the string [""], and for
    any other value, [nil] and zero included, add one [Where] call that
    binds it. *)
Theorem Eq_NotEq_sentinel (column : string) (value : iface) (gdb : gormDB) :
  (GormDB.Eq column value gdb = Returns gdb <-> value = IString "")
  /\ (GormDB.NotEq column value gdb = Returns gdb <-> value = IString "")
  /\ (value <> IString "" ->
      GormDB.Eq column value gdb
      = Returns (gdb ++ [DBWhere (column ++ " = ?") [Arg value]])%list
      /\ GormDB.NotEq column value gdb
         = Returns (gdb ++ [DBWhere (column ++ " != ?") [Arg value]])%list).
Proof.
  unfold GormDB.Eq, GormDB.NotEq, db_Where. rewrite iface_neq_empty.
  destruct (is_empty_string value) eqn:E; simpl.
  - apply is_empty_string_true in E. repeat split; try easy; contradiction.
  - apply is_empty_string_false in E.
    repeat split; try easy; intros [= H]; now apply app_one_neq in H.
Qed.

Lemma Eq_NotEq_sentinel_witness :
  GormDB.Eq "deleted_at" INil [] = Returns [DBWhere "deleted_at = ?" [Arg INil]].
Proof.
  exact (proj1 (proj2 (proj2 (Eq_NotEq_sentinel "deleted_at" INil []))
                  ltac:(discriminate))).
Defined.

(** ** Pagination *)

Section GetPaginated_properties.

Variable T : Type.
Variable dberror : Type.
Variable db_Count : dberror + Z.
Variable db_Find : Z -> Z -> dberror + list T.
Variable float_ceil_div : Z -> Z -> Z.

(** X11. A page that [GetPaginated] returns has a page number of at
    least 1, the number asked for or 1 if that was less; it has a
    previous page exactly when its number is above 1; it holds the
    count and the rows that the database gave for the offset
    [(Page - 1) * PageSize]. For a positive page size, when
    [Page * PageSize] fits in [int], it has a next page exactly when
    the count is above [Page * PageSize]; and, if the total of pages
    is the exact ceiling of count by page size, exactly when [Page] is
    below that total. *)
Theorem GetPaginated_response (page pageSize : Z)
    (resp : PagedResponse T) :
  GetPaginated T dberror db_Count db_Find float_ceil_div page pageSize
  = inr resp ->
  Page resp = Z.max 1 page
  /\ PageSize resp = pageSize
  /\ (HasPrev resp = true <-> (1 < Page resp)%Z)
  /\ db_Count = inr (Count resp)
  /\ db_Find (wrap_int64 ((Page resp - 1) * pageSize)) pageSize
     = inr (Results resp)
  /\ ((0 < pageSize)%Z ->
      (Page resp * pageSize < 2 ^ 63)%Z ->
      (HasNext resp = true
       <-> ((Page resp - 1) * pageSize + pageSize < Count resp)%Z)
      /\ (((TotalPages resp - 1) * pageSize < Count resp
           <= TotalPages resp * pageSize)%Z ->
          (HasNext resp = true <-> (Page resp < TotalPages resp)%Z))).
Proof.
  unfold GetPaginated. intros H.
  destruct db_Count as [err|totalCount]; [discriminate H|].
  destruct (db_Find _ pageSize) as [err|results] eqn:EF; [discriminate H|].
  injection H as <-. simpl.
  assert (Hpage : (if (page <? 1)%Z then 1%Z else page) = Z.max 1 page)
    by (destruct (Z.ltb_spec page 1); lia).
  rewrite Hpage in *. set (p := Z.max 1 page) in *.
  split; [reflexivity|]. split; [reflexivity|].
  split; [apply Z.ltb_lt|]. split; [reflexivity|]. split; [exact EF|].
  intros Hps Hfit.
  assert (Hw : wrap_int64 (p * pageSize) = (p * pageSize)%Z).
  { unfold wrap_int64. assert (0 <= p * pageSize)%Z by nia.
    rewrite Z.mod_small; lia. }
  rewrite Hw, Z.ltb_lt. split; [split; intros; lia|].
  intros [Hlo Hhi]. split; intros; nia.
Qed.

End GetPaginated_properties.

Lemma GetPaginated_response_witness :
  HasNext (mkPagedResponse 1%Z 2%Z 3%Z 5%Z true false [10; 20]) = true
  <-> (1 < 3)%Z.
Proof.
  refine (proj2 (proj2 (proj2 (proj2 (proj2 (proj2
    (GetPaginated_response nat unit (inr 5%Z) (fun _ _ => inr [10; 20])
       (fun a b => 3%Z) 0%Z 2%Z
       (mkPagedResponse 1%Z 2%Z 3%Z 5%Z true false [10; 20])
       eq_refl))))) _ _) _); simpl; lia.
Defined.
